(** * A model of the distributed lock protocol of go-cachestore

    The lock manager (WriteLock, WriteLockWithSecret, WaitWriteLock,
    ReleaseLock), the secret generator RandomHex and the key validation
    live in source files of this repository that are not part of this
    development's inputs; they are modelled from the specification
    (section 4), and each such definition says so in its doc comment.

    Conventions:
    - strings are [String.string] (Go strings are byte strings);
    - time is an explicit integer clock in milliseconds; a TTL given in
      seconds expires [ttl * 1000] milliseconds after the write;
    - the backing store is a [gmap string lock_entry]: the local
      in-memory engine, whose conditional insert / conditional delete are
      single atomic map operations (spec, section 9); backend faults of a
      remote store are not modelled;
    - the secure random source is an explicit reader
      [nat -> option (list Byte.byte)]: asked for [n] bytes it delivers them or
      fails ([None]). *)

From Stdlib Require Import String Ascii ZArith Lia.
From stdpp Require Import base gmap strings list.

Open Scope Z_scope.

(** ** Errors *)

(** The error conditions of the lock API (spec, section 7). *)
Inductive cache_error :=
| ErrKeyRequired          (* "key required": blank lock key *)
| ErrSecretRequired       (* "secret required": blank secret *)
| ErrTTWCannotBeEmpty     (* "wait time required": maxWaitSeconds <= 0 *)
| ErrLockExists           (* "key is locked with a different secret" *)
| ErrLockMismatch         (* release with a secret that does not match *)
| ErrRandomGeneration     (* the entropy source could not deliver *)
| ErrLockWaitTimeout      (* WaitWriteLock exhausted its wait budget *)
| ErrCancelled.           (* the caller's context was cancelled *)

(** ** Lock validator *)

(** [unicode.IsSpace] on a one-byte rune: tab, newline, vertical tab,
    form feed, carriage return and space. *)
Definition is_space (c : ascii) : bool :=
  let n := nat_of_ascii c in
  ((9 <=? n)%nat && (n <=? 13)%nat) || (n =? 32)%nat.

(** [unicode.IsSpace] on a two-byte UTF-8 rune: U+0085 (C2 85) and
    U+00A0 (C2 A0). *)
Definition is_space2 (c1 c2 : ascii) : bool :=
  let a := nat_of_ascii c1 in
  let b := nat_of_ascii c2 in
  (a =? 194)%nat && ((b =? 133)%nat || (b =? 160)%nat).

(** [unicode.IsSpace] on a three-byte UTF-8 rune: U+1680 (E1 9A 80),
    U+2000..U+200A (E2 80 80..8A), U+2028 (E2 80 A8), U+2029 (E2 80 A9),
    U+202F (E2 80 AF), U+205F (E2 81 9F) and U+3000 (E3 80 80). *)
Definition is_space3 (c1 c2 c3 : ascii) : bool :=
  let a := nat_of_ascii c1 in
  let b := nat_of_ascii c2 in
  let c := nat_of_ascii c3 in
  ((a =? 225)%nat && (b =? 154)%nat && (c =? 128)%nat)
  || ((a =? 226)%nat && (b =? 128)%nat &&
      (((128 <=? c)%nat && (c <=? 138)%nat) || (c =? 168)%nat
       || (c =? 169)%nat || (c =? 175)%nat))
  || ((a =? 226)%nat && (b =? 129)%nat && (c =? 159)%nat)
  || ((a =? 227)%nat && (b =? 128)%nat && (c =? 128)%nat).

(** [strings.TrimSpace s == ""]: the bytes of [s] decode, as UTF-8, into
    runes that all satisfy [unicode.IsSpace].  A byte that does not start
    a valid encoding decodes to [utf8.RuneError], which is not a space,
    so only the encodings listed above can be trimmed away.  The leading
    byte fixes the length of the rune, so at most one test can succeed. *)
Fixpoint is_blank (s : string) : bool :=
  match s with
  | EmptyString => true
  | String c1 r1 =>
      if is_space c1 then is_blank r1 else
      match r1 with
      | EmptyString => false
      | String c2 r2 =>
          if is_space2 c1 c2 then is_blank r2 else
          match r2 with
          | EmptyString => false
          | String c3 r3 => if is_space3 c1 c2 c3 then is_blank r3 else false
          end
      end
  end.

(** Modelled from the spec: the lock validator (spec, 4.1) of the missing
    lock source.  It checks the trimmed key, then the trimmed secret, and
    has no other effect: the operations go on with the values as given. *)
Definition validateLockKey (lockKey : string) : option cache_error :=
  if is_blank lockKey then Some ErrKeyRequired else None.

Definition validateLockValues (lockKey secret : string) : option cache_error :=
  if is_blank lockKey then Some ErrKeyRequired
  else if is_blank secret then Some ErrSecretRequired
  else None.

(** ** Secret generator *)

(** One lowercase hexadecimal digit, as in [encoding/hex]'s table
    ["0123456789abcdef"]: digits 0..9 are '0'..'9', 10..15 are 'a'..'f'. *)
Definition hex_digit (n : nat) : ascii :=
  ascii_of_nat (if (n <? 10)%nat then 48 + n else 87 + n)%nat.

(** [hex.EncodeToString]: two digits per byte, high nibble first. *)
Fixpoint EncodeToString (bs : list Byte.byte) : string :=
  match bs with
  | [] => EmptyString
  | b :: rest =>
      let n := Byte.to_nat b in
      String (hex_digit (n / 16)) (String (hex_digit (n mod 16))
        (EncodeToString rest))
  end.

(** The entropy source: asked for [n] bytes, it delivers a list or fails. *)
Definition reader := nat -> option (list Byte.byte).

(** [rand.Read] of a buffer of [n] bytes ([io.ReadFull] semantics): an
    empty buffer is filled without reading; otherwise the reader must
    deliver exactly [n] bytes, and a failure or a short read is an error. *)
Definition read_full (rd : reader) (n : nat) : option (list Byte.byte) :=
  if (n =? 0)%nat then Some []
  else match rd n with
       | Some bs => if (length bs =? n)%nat then Some bs else None
       | None => None
       end.

(** Modelled from the spec: RandomHex (spec, 4.2) of the missing utility
    source.  Given a byte count [n >= 0] it reads [n] random bytes and
    returns their lowercase hexadecimal encoding; it fails with a
    generation error (and an empty string) when the entropy source is
    unavailable. *)
Definition RandomHex (rd : reader) (n : nat) : string * option cache_error :=
  match read_full rd n with
  | Some bs => (EncodeToString bs, None)
  | None => (EmptyString, Some ErrRandomGeneration)
  end.

(** The byte count of an auto-generated lock secret: 32 bytes, that is a
    64-character secret (the length the lock tests check). *)
Definition defaultSecretBytes : nat := 32.

(** ** Lock store adapter *)

(** A stored lock: the secret and the instant (in milliseconds) at which
    the backend expires the entry. *)
Record lock_entry := LockEntry {
  entry_secret : string;
  entry_expiry : Z
}.

(** The secret of the live lock under [key] at time [now]; an entry whose
    expiry has passed is gone for every reader of the store. *)
Definition live_secret (st : gmap string lock_entry) (now : Z) (key : string)
  : option string :=
  match st !! key with
  | Some e => if now <? entry_expiry e then Some (entry_secret e) else None
  | None => None
  end.

(** Modelled from the spec: the conditional insert of the store adapter
    (spec, 4.3 and 6).  The write happens, with the TTL restarted, when the
    key holds no live lock or a live lock with the same secret; otherwise
    nothing is written ([None]). *)
Definition ConditionalInsert (st : gmap string lock_entry) (now : Z)
    (key value : string) (ttl : Z) : option (gmap string lock_entry) :=
  let st' := <[key := LockEntry value (now + ttl * 1000)]> st in
  match live_secret st now key with
  | None => Some st'
  | Some cur => if String.eqb cur value then Some st' else None
  end.

(** Modelled from the spec: the conditional delete of the store adapter.
    A live lock with the given secret is deleted ([true]); a live lock with
    another secret is kept and reported as a lock mismatch, the style the
    release tests check; no live lock is a no-op reported as [false]. *)
Definition ConditionalDelete (st : gmap string lock_entry) (now : Z)
    (key value : string) : bool * option cache_error * gmap string lock_entry :=
  match live_secret st now key with
  | None => (false, None, st)
  | Some cur =>
      if String.eqb cur value then (true, None, delete key st)
      else (false, Some ErrLockMismatch, st)
  end.

(** ** Lock manager *)

(** Modelled from the spec: AcquireWithSecret ([WriteLockWithSecret]).
    Validates key and secret, then performs one conditional insert; a
    refused insert is the conflict "key is locked with a different secret".
    Every failure returns the empty secret. *)
Definition WriteLockWithSecret (st : gmap string lock_entry) (now : Z)
    (lockKey secret : string) (ttl : Z)
  : string * option cache_error * gmap string lock_entry :=
  match validateLockValues lockKey secret with
  | Some e => (EmptyString, Some e, st)
  | None =>
      match ConditionalInsert st now lockKey secret ttl with
      | Some st' => (secret, None, st')
      | None => (EmptyString, Some ErrLockExists, st)
      end
  end.

(** Modelled from the spec: Acquire ([WriteLock]).  Validates the key,
    generates a fresh secret of the default length from the random source
    and performs the same conditional insert with it. *)
Definition WriteLock (st : gmap string lock_entry) (now : Z) (rd : reader)
    (lockKey : string) (ttl : Z)
  : string * option cache_error * gmap string lock_entry :=
  match validateLockKey lockKey with
  | Some e => (EmptyString, Some e, st)
  | None =>
      match RandomHex rd defaultSecretBytes with
      | (_, Some e) => (EmptyString, Some e, st)
      | (secret, None) =>
          match ConditionalInsert st now lockKey secret ttl with
          | Some st' => (secret, None, st')
          | None => (EmptyString, Some ErrLockExists, st)
          end
      end
  end.

(** Modelled from the spec: Release ([ReleaseLock]).  Validates key and
    secret (distinct errors), then performs one conditional delete. *)
Definition ReleaseLock (st : gmap string lock_entry) (now : Z)
    (lockKey secret : string) : bool * option cache_error * gmap string lock_entry :=
  match validateLockValues lockKey secret with
  | Some e => (false, Some e, st)
  | None => ConditionalDelete st now lockKey secret
  end.

(** ** Waiting for a lock *)

(** What a [WaitWriteLock] call returns, together with what it did: the
    store after the call, the instants at which it attempted an
    acquisition, and the instant at which it returned. *)
Record wait_result := WaitResult {
  wr_secret : string;
  wr_error : option cache_error;
  wr_store : gmap string lock_entry;
  wr_attempts : list Z;
  wr_time : Z
}.

Section WaitLoop.

(** The store as the other clients leave it at each instant. *)
Variable world : Z -> gmap string lock_entry.
(** The random source seen by the attempt made at each instant. *)
Variable rnd : Z -> reader.
(** The caller's context: the instant at which it is cancelled or its
    deadline expires, if any. *)
Variable cancel_at : option Z.
(** The fixed polling interval, in milliseconds. *)
Variable poll_ms : Z.
Variable lockKey : string.
Variable ttl : Z.

Definition ctx_done (t : Z) : bool :=
  match cancel_at with
  | Some tc => tc <=? t
  | None => false
  end.

(** Modelled from the spec: the polling loop of WaitAcquire.  Each round
    first checks the context, then makes one Acquire attempt; after a
    failed attempt it gives up once the deadline [endTime] is reached and
    otherwise sleeps one interval.  [fuel] bounds the number of rounds; it
    is chosen by [WaitWriteLock] so that the deadline is always reached
    first. *)
Fixpoint wait_loop (endTime : Z) (fuel : nat) (t : Z) (attempts : list Z)
  : wait_result :=
  if ctx_done t then
    WaitResult EmptyString (Some ErrCancelled) (world t) (rev attempts) t
  else
    match WriteLock (world t) t (rnd t) lockKey ttl with
    | (secret, None, st') => WaitResult secret None st' (rev (t :: attempts)) t
    | (_, Some _, _) =>
        if endTime <=? t then
          WaitResult EmptyString (Some ErrLockWaitTimeout) (world t)
            (rev (t :: attempts)) t
        else
          match fuel with
          | O => WaitResult EmptyString (Some ErrLockWaitTimeout) (world t)
                   (rev (t :: attempts)) t
          | S fuel' => wait_loop endTime fuel' (t + poll_ms) (t :: attempts)
          end
    end.

(** Modelled from the spec: WaitAcquire ([WaitWriteLock]), called at [t0]
    with a wait budget of [ttw] seconds.  It validates the key, refuses a
    non-positive wait time, and otherwise polls until the deadline
    [t0 + ttw * 1000]. *)
Definition WaitWriteLock (t0 ttw : Z) : wait_result :=
  match validateLockKey lockKey with
  | Some e => WaitResult EmptyString (Some e) (world t0) [] t0
  | None =>
      if ttw <=? 0 then
        WaitResult EmptyString (Some ErrTTWCannotBeEmpty) (world t0) [] t0
      else wait_loop (t0 + ttw * 1000) (Z.to_nat (ttw * 1000)) t0 []
  end.

End WaitLoop.

(** ** Sample inputs *)

(** A random source that always delivers [n] copies of one byte. *)
Definition const_reader (b : Byte.byte) : reader := fun n => Some (repeat b n).

(** An entropy source that is unavailable. *)
Definition dead_reader : reader := fun _ => None.

(** Sample strings: U+00A0 (no-break space, C2 A0), U+3000 (ideographic
    space, E3 80 80), U+00E9 (C3 A9, a letter) and the lone byte C2 (an
    invalid encoding). *)
Definition nbsp : string := String (ascii_of_nat 194) (String (ascii_of_nat 160) EmptyString).
Definition ideographic_space : string :=
  String (ascii_of_nat 227) (String (ascii_of_nat 128) (String (ascii_of_nat 128) EmptyString)).
Definition e_acute : string := String (ascii_of_nat 195) (String (ascii_of_nat 169) EmptyString).
Definition lone_lead_byte : string := String (ascii_of_nat 194) EmptyString.

(** ** Engines (engine.go) *)

Module Engine.

(** [type Engine string] and its supported values. *)
Definition Empty : string := "empty".
Definition FreeCache : string := "freecache".
Definition Redis : string := "redis".

(** [func (e Engine) String() string { return string(e) }] *)
Definition String (e : string) : string := e.

(** [func (e Engine) IsEmpty() bool { return e == Empty }] *)
Definition IsEmpty (e : string) : bool := String.eqb e Empty.

End Engine.

(** ** Client options (src/unnamed/part_004) *)

(** [RedisConfig]: durations are in nanoseconds, as Go's [time.Duration]. *)
Record RedisConfig := MkRedisConfig {
  DependencyMode : bool;
  MaxActiveConnections : Z;
  MaxConnectionLifetime : Z;
  MaxIdleConnections : Z;
  MaxIdleTimeout : Z;
  URL : string;
  UseTLS : bool
}.

(** [RedisConfig{}]: the zero value. *)
Definition zeroRedisConfig : RedisConfig := MkRedisConfig false 0 0 0 0 "" false.

Definition set_URL (u : string) (r : RedisConfig) : RedisConfig :=
  MkRedisConfig (DependencyMode r) (MaxActiveConnections r) (MaxConnectionLifetime r)
    (MaxIdleConnections r) (MaxIdleTimeout r) u (UseTLS r).

Definition set_MaxIdleTimeout (d : Z) (r : RedisConfig) : RedisConfig :=
  MkRedisConfig (DependencyMode r) (MaxActiveConnections r) (MaxConnectionLifetime r)
    (MaxIdleConnections r) d (URL r) (UseTLS r).

(** [clientOptions].  Pointer fields are [option positive]: [None] is nil,
    [Some l] the address of the object.  The [*RedisConfig] objects live in
    a heap [gmap positive RedisConfig], because [WithRedis] writes through
    the pointer the caller passes; the FreeCache, Redis-client and logger
    objects are never read or written by the options, so only their
    addresses are kept. *)
Record clientOptions := MkClientOptions {
  debug : bool;
  engine : string;
  freeCache : option positive;
  logger : option positive;
  newRelicEnabled : bool;
  redis : option positive;
  redisConfig : option positive
}.

(** [func strings.Contains(s, substr string) bool]. *)
Fixpoint contains (s sub : string) : bool :=
  String.prefix sub s ||
  match s with
  | EmptyString => false
  | String _ rest => contains rest sub
  end.

Section ClientOptions.

(** [RedisPrefix] and [DefaultRedisMaxIdleTimeout] are package constants
    defined outside the option code; [duration_is_empty d] is the test
    [d.String() == emptyTimeDuration].  The results below hold for every
    value of them. *)
Variable RedisPrefix : string.
Variable DefaultRedisMaxIdleTimeout : Z.
Variable duration_is_empty : Z -> bool.

(** [type ClientOps func(c *clientOptions)], with the heap of RedisConfig
    objects the option may write to. *)
Definition ClientOps : Type :=
  gmap positive RedisConfig -> clientOptions -> gmap positive RedisConfig * clientOptions.

(** [defaultClientOptions]: allocates a fresh zero [RedisConfig]. *)
Definition defaultClientOptions (h : gmap positive RedisConfig)
  : gmap positive RedisConfig * clientOptions :=
  let l := fresh (dom h) in
  (<[l := zeroRedisConfig]> h,
   MkClientOptions false Engine.Empty None None false None (Some l)).

(** [WithNewRelic] *)
Definition WithNewRelic : ClientOps := fun h c =>
  (h, MkClientOptions (debug c) (engine c) (freeCache c) (logger c) true
        (redis c) (redisConfig c)).

(** [WithDebugging] *)
Definition WithDebugging : ClientOps := fun h c =>
  (h, MkClientOptions true (engine c) (freeCache c) (logger c) (newRelicEnabled c)
        (redis c) (redisConfig c)).

(** [WithRedis]: nil is ignored; otherwise the prefix is added to the
    caller's config when its URL lacks it, the options point at that
    config with the Redis engine and no connection, and an empty idle
    timeout is set to the default, all through the same pointer.  A pointer
    to no object cannot be passed in Go; the model leaves the state as it
    is for it. *)
Definition WithRedis (cfg : option positive) : ClientOps := fun h c =>
  match cfg with
  | None => (h, c)
  | Some l =>
      match h !! l with
      | None => (h, c)
      | Some r =>
          let r1 := if contains (URL r) RedisPrefix then r
                    else set_URL (RedisPrefix ++ URL r) r in
          let h1 := <[l := r1]> h in
          let c1 := MkClientOptions (debug c) Engine.Redis (freeCache c) (logger c)
                      (newRelicEnabled c) None (Some l) in
          if duration_is_empty (MaxIdleTimeout r1)
          then (<[l := set_MaxIdleTimeout DefaultRedisMaxIdleTimeout r1]> h1, c1)
          else (h1, c1)
      end
  end.

(** [WithRedisConnection] *)
Definition WithRedisConnection (client : option positive) : ClientOps := fun h c =>
  match client with
  | Some _ => (h, MkClientOptions (debug c) Engine.Redis (freeCache c) (logger c)
                    (newRelicEnabled c) client None)
  | None => (h, c)
  end.

(** [WithFreeCache] *)
Definition WithFreeCache : ClientOps := fun h c =>
  (h, MkClientOptions (debug c) Engine.FreeCache (freeCache c) (logger c)
        (newRelicEnabled c) (redis c) (redisConfig c)).

(** [WithFreeCacheConnection] *)
Definition WithFreeCacheConnection (client : option positive) : ClientOps := fun h c =>
  match client with
  | Some _ => (h, MkClientOptions (debug c) Engine.FreeCache client (logger c)
                    (newRelicEnabled c) (redis c) (redisConfig c))
  | None => (h, c)
  end.

(** [WithLogger] *)
Definition WithLogger (customLogger : option positive) : ClientOps := fun h c =>
  match customLogger with
  | Some _ => (h, MkClientOptions (debug c) (engine c) (freeCache c) customLogger
                    (newRelicEnabled c) (redis c) (redisConfig c))
  | None => (h, c)
  end.

End ClientOptions.

(** ** Transaction contexts (getTxnCtx) *)

(** The context keys New Relic stores transactions under. *)
Inductive ctx_key :=
| TransactionContextKey
| GinTransactionContextKey
| OtherKey (n : nat).

Definition ctx_key_eqb (a b : ctx_key) : bool :=
  match a, b with
  | TransactionContextKey, TransactionContextKey => true
  | GinTransactionContextKey, GinTransactionContextKey => true
  | OtherKey n, OtherKey m => Nat.eqb n m
  | _, _ => false
  end.

(** A value stored in a context, with its dynamic type: a
    [*newrelic.Transaction] ([None] for a nil pointer of that type, [Some t]
    for the address of a transaction) or a value of any other type (its
    address). *)
Inductive ctx_val :=
| TxnVal (t : option positive)
| OtherVal (v : positive).

(** A [context.Context]: [None] is a nil context, otherwise the chain of
    values, innermost first. *)
Definition context := option (list (ctx_key * ctx_val)).

(** [ctx.Value(key)] on a chain: the innermost binding of the key. *)
Fixpoint chain_value (kvs : list (ctx_key * ctx_val)) (k : ctx_key) : option ctx_val :=
  match kvs with
  | [] => None
  | (k', v) :: rest => if ctx_key_eqb k' k then Some v else chain_value rest k
  end.

Definition Value (ctx : context) (k : ctx_key) : option ctx_val :=
  match ctx with
  | None => None
  | Some kvs => chain_value kvs k
  end.

(** The assertion of [v] to type [*Transaction] in [h, _ := ...]: the
    transaction pointer when the value
    has that type, the nil pointer otherwise (no value, or a value of
    another type). *)
Definition as_transaction (v : option ctx_val) : option positive :=
  match v with
  | Some (TxnVal t) => t
  | _ => None
  end.

(** [newrelic.FromContext]: nil for a nil context; else the transaction
    asserted from the value under the main key when it is not nil; else
    the one asserted from the value under the Gin key. *)
Definition FromContext (ctx : context) : option positive :=
  match ctx with
  | None => None
  | Some kvs =>
      match as_transaction (chain_value kvs TransactionContextKey) with
      | Some t => Some t
      | None => as_transaction (chain_value kvs GinTransactionContextKey)
      end
  end.

(** [newrelic.NewContext]: [context.WithValue] under the main key.  A nil
    parent makes Go panic; [getTxnCtx] never reaches it, since a
    transaction was found in the context. *)
Definition NewContext (ctx : context) (txn : positive) : context :=
  match ctx with
  | None => None
  | Some kvs => Some ((TransactionContextKey, TxnVal (Some txn)) :: kvs)
  end.

(** [func (c *clientOptions) getTxnCtx(ctx context.Context) context.Context] *)
Definition getTxnCtx (c : clientOptions) (ctx : context) : context :=
  if newRelicEnabled c then
    match FromContext ctx with
    | Some txn => NewContext ctx txn
    | None => ctx
    end
  else ctx.

(** ** Facts about the model *)

(** A lowercase hexadecimal character: '0'..'9' or 'a'..'f'. *)
Definition is_lower_hex (c : ascii) : bool :=
  let n := nat_of_ascii c in
  ((48 <=? n)%nat && (n <=? 57)%nat) || ((97 <=? n)%nat && (n <=? 102)%nat).

Fixpoint all_lower_hex (s : string) : bool :=
  match s with
  | EmptyString => true
  | String c rest => is_lower_hex c && all_lower_hex rest
  end.

Lemma hex_digit_code (n : nat) :
  (n < 16)%nat ->
  nat_of_ascii (hex_digit n) = (if (n <? 10)%nat then 48 + n else 87 + n)%nat.
Proof.
  intros Hn. unfold hex_digit. apply nat_ascii_embedding.
  destruct (Nat.ltb_spec n 10); lia.
Qed.

Lemma hex_digit_lower_hex (n : nat) : (n < 16)%nat -> is_lower_hex (hex_digit n) = true.
Proof.
  intros Hn. unfold is_lower_hex. rewrite (hex_digit_code n Hn).
  destruct (Nat.ltb_spec n 10) as [Hlt | Hge].
  - apply orb_true_intro; left. apply andb_true_intro; split; apply Nat.leb_le; lia.
  - apply orb_true_intro; right. apply andb_true_intro; split; apply Nat.leb_le; lia.
Qed.

Lemma hex_digit_not_space (n : nat) : (n < 16)%nat ->
  is_space (hex_digit n) = false /\
  (forall c2, is_space2 (hex_digit n) c2 = false) /\
  (forall c2 c3, is_space3 (hex_digit n) c2 c3 = false).
Proof.
  intros Hn. unfold is_space, is_space2, is_space3. rewrite (hex_digit_code n Hn).
  assert (Hx : (48 <= (if (n <? 10)%nat then 48 + n else 87 + n) <= 102)%nat).
  { destruct (Nat.ltb_spec n 10); lia. }
  revert Hx. generalize (if (n <? 10)%nat then 48 + n else 87 + n)%nat. intros x Hx.
  assert (Hc : forall k, (k = 32 \/ k = 194 \/ k = 225 \/ k = 226 \/ k = 227)%nat ->
            (x =? k)%nat = false).
  { intros k Hk. apply Nat.eqb_neq. lia. }
  rewrite !Hc by lia.
  destruct (Nat.leb_spec 9 x); destruct (Nat.leb_spec x 13); try lia.
  simpl. repeat split.
Qed.

Lemma byte_nibbles (b : Byte.byte) :
  (Byte.to_nat b / 16 < 16)%nat /\ (Byte.to_nat b mod 16 < 16)%nat.
Proof.
  pose proof (Byte.to_nat_bounded b). split.
  - apply Nat.Div0.div_lt_upper_bound. lia.
  - apply Nat.mod_upper_bound. lia.
Qed.

Lemma EncodeToString_length (bs : list Byte.byte) :
  String.length (EncodeToString bs) = (2 * length bs)%nat.
Proof. induction bs as [|b bs IH]; simpl; [reflexivity | rewrite IH; lia]. Qed.

Lemma EncodeToString_lower_hex (bs : list Byte.byte) :
  all_lower_hex (EncodeToString bs) = true.
Proof.
  induction bs as [|b bs IH]; [reflexivity|]. cbn [EncodeToString all_lower_hex].
  destruct (byte_nibbles b) as [Hhi Hlo].
  rewrite (hex_digit_lower_hex _ Hhi), (hex_digit_lower_hex _ Hlo), IH.
  reflexivity.
Qed.

Lemma EncodeToString_not_blank (bs : list Byte.byte) :
  bs <> [] -> is_blank (EncodeToString bs) = false.
Proof.
  destruct bs as [|b bs]; [congruence|]. intros _. cbn [EncodeToString is_blank].
  destruct (byte_nibbles b) as [Hhi _].
  destruct (hex_digit_not_space _ Hhi) as (H1 & H2 & H3).
  rewrite H1, H2. destruct (EncodeToString bs) as [|c r]; simpl.
  - reflexivity.
  - rewrite H3. reflexivity.
Qed.

Lemma read_full_length (rd : reader) (n : nat) (bs : list Byte.byte) :
  read_full rd n = Some bs -> length bs = n.
Proof.
  unfold read_full. destruct (Nat.eqb_spec n 0) as [-> | Hn].
  - intros H. injection H as <-. reflexivity.
  - destruct (rd n) as [l|]; [|discriminate].
    destruct (Nat.eqb_spec (length l) n); [|discriminate].
    intros H. injection H as <-. assumption.
Qed.

(** A generated lock secret is never blank: it has 64 hex digits. *)
Lemma generated_secret_not_blank (rd : reader) (s : string) :
  RandomHex rd defaultSecretBytes = (s, None) -> is_blank s = false.
Proof.
  unfold RandomHex. destruct (read_full rd defaultSecretBytes) as [bs|] eqn:Hr;
    [|discriminate].
  intros H. injection H as <-. apply EncodeToString_not_blank.
  apply read_full_length in Hr. intros ->. discriminate.
Qed.

Lemma live_secret_insert_eq (st : gmap string lock_entry) (now exp : Z)
    (key v : string) :
  live_secret (<[key := LockEntry v exp]> st) now key =
  if now <? exp then Some v else None.
Proof. unfold live_secret. rewrite lookup_insert_eq. reflexivity. Qed.

Lemma live_secret_delete_eq (st : gmap string lock_entry) (now : Z) (key : string) :
  live_secret (delete key st) now key = None.
Proof. unfold live_secret. rewrite lookup_delete_eq. reflexivity. Qed.

(** The outcome of a successful [WriteLock]: the secret is the encoding of
    the random bytes and the store holds it under the key until the TTL. *)
Lemma WriteLock_success (st st1 : gmap string lock_entry) (now : Z) (rd : reader)
    (key s : string) (ttl : Z) :
  WriteLock st now rd key ttl = (s, None, st1) ->
  is_blank key = false /\
  RandomHex rd defaultSecretBytes = (s, None) /\
  st1 = <[key := LockEntry s (now + ttl * 1000)]> st.
Proof.
  unfold WriteLock, validateLockKey.
  destruct (is_blank key) eqn:Hk; [discriminate|].
  destruct (RandomHex rd defaultSecretBytes) as [g [e|]] eqn:Hg; [discriminate|].
  unfold ConditionalInsert.
  destruct (live_secret st now key) as [cur|];
    [destruct (String.eqb cur g)|]; intros H; try discriminate;
    injection H as <- <-; auto.
Qed.

(** Sample values: the secret drawn from 32 bytes [0x01] and the store
    holding it under ["k"] for 30 seconds from instant 0. *)
Definition sample_secret : string := EncodeToString (repeat Byte.x01 32).

Definition sample_store : gmap string lock_entry :=
  <["k" := LockEntry sample_secret 30000]> ∅.

(** The validator trims Unicode white space as [strings.TrimSpace] does:
    keys or secrets made of no-break or ideographic spaces are refused,
    while a letter or an invalid byte is kept. *)
Lemma validator_unicode_samples :
  validateLockKey nbsp = Some ErrKeyRequired /\
  validateLockKey (String.append " " (String.append ideographic_space nbsp)) = Some ErrKeyRequired /\
  validateLockValues "k" nbsp = Some ErrSecretRequired /\
  validateLockKey e_acute = None /\
  validateLockKey lone_lead_byte = None /\
  validateLockKey (String.append nbsp "k") = None.
Proof. vm_compute. repeat split. Qed.

(** ** Claims about acquisition and release *)




(** C2 (as amended).  With a positive TTL, a successful [WriteLock]
    followed at the same instant by [ReleaseLock] with the returned secret
    reports [released = true] without error and deletes the entry; any
    later [WriteLock] on the key then succeeds whenever its secret can be
    generated, and fails with the generation error, the store unchanged,
    when the random source cannot deliver. *)
Theorem release_after_WriteLock_frees (st st1 : gmap string lock_entry) (t : Z)
    (rd : reader) (key s : string) (ttl : Z) :
  0 < ttl ->
  WriteLock st t rd key ttl = (s, None, st1) ->
  ReleaseLock st1 t key s = (true, None, delete key st1) /\
  forall (t' ttl' : Z) (rd' : reader),
    match read_full rd' defaultSecretBytes with
    | Some bs =>
        WriteLock (delete key st1) t' rd' key ttl' =
          (EncodeToString bs, None,
           <[key := LockEntry (EncodeToString bs) (t' + ttl' * 1000)]> (delete key st1))
    | None =>
        WriteLock (delete key st1) t' rd' key ttl' =
          (EmptyString, Some ErrRandomGeneration, delete key st1)
    end.
Proof.
  intros Httl Hw. apply WriteLock_success in Hw as (Hk & Hg & ->).
  split.
  - unfold ReleaseLock, validateLockValues. rewrite Hk, (generated_secret_not_blank _ _ Hg).
    unfold ConditionalDelete. rewrite live_secret_insert_eq.
    destruct (Z.ltb_spec t (t + ttl * 1000)); [|lia].
    rewrite String.eqb_refl. reflexivity.
  - intros t' ttl' rd'.
    unfold WriteLock, validateLockKey. rewrite Hk.
    unfold RandomHex. destruct (read_full rd' defaultSecretBytes) as [bs|]; [|reflexivity].
    unfold ConditionalInsert. rewrite live_secret_delete_eq. reflexivity.
Qed.

Lemma release_after_WriteLock_frees_witness :
  0 < 30 /\
  WriteLock ∅ 0 (const_reader Byte.x01) "k" 30 = (sample_secret, None, sample_store) /\
  ReleaseLock sample_store 0 "k" sample_secret = (true, None, delete "k" sample_store) /\
  WriteLock (delete "k" sample_store) 5 dead_reader "k" 30 =
    (EmptyString, Some ErrRandomGeneration, delete "k" sample_store).
Proof.
  assert (Hw : WriteLock (∅ : gmap string lock_entry) 0 (const_reader Byte.x01) "k" 30 =
                (sample_secret, None, sample_store)) by reflexivity.
  split; [lia|]. split; [exact Hw|].
  destruct (release_after_WriteLock_frees _ _ _ _ _ _ 30 ltac:(lia) Hw)
    as [Hrel Hnext].
  split; [exact Hrel|]. exact (Hnext 5 30 dead_reader).
Defined.

(** C2 fails as first stated: after the release, an Acquire whose random
    source is unavailable fails with the generation error. *)
Lemma release_then_acquire_without_entropy :
  ReleaseLock sample_store 0 "k" sample_secret = (true, None, delete "k" sample_store) /\
  WriteLock (delete "k" sample_store) 0 dead_reader "k" 30 =
    (EmptyString, Some ErrRandomGeneration, delete "k" sample_store).
Proof. split; vm_compute; reflexivity. Qed.

(** C3 (as amended).  For a lock key and a secret that are not blank, on
    a store where the key holds no live lock of another secret,
    [WriteLockWithSecret] called twice with the same pair, the second time
    before the lock expires, succeeds both times, each time returning the
    supplied secret; the second call restarts the TTL, setting the expiry
    from its own TTL. *)
Theorem WriteLockWithSecret_renewal (st : gmap string lock_entry) (t t' : Z)
    (key secret : string) (ttl ttl' : Z) :
  is_blank key = false ->
  is_blank secret = false ->
  live_secret st t key = None \/ live_secret st t key = Some secret ->
  t' < t + ttl * 1000 ->
  let st1 := <[key := LockEntry secret (t + ttl * 1000)]> st in
  WriteLockWithSecret st t key secret ttl = (secret, None, st1) /\
  WriteLockWithSecret st1 t' key secret ttl' =
    (secret, None, <[key := LockEntry secret (t' + ttl' * 1000)]> st1).
Proof.
  intros Hk Hs Hfree Hlive st1.
  unfold WriteLockWithSecret, validateLockValues. rewrite Hk, Hs.
  unfold ConditionalInsert. split.
  - destruct Hfree as [-> | ->]; [reflexivity|].
    rewrite String.eqb_refl. reflexivity.
  - subst st1. rewrite live_secret_insert_eq.
    destruct (Z.ltb_spec t' (t + ttl * 1000)); [|lia].
    rewrite String.eqb_refl. reflexivity.
Qed.

Lemma WriteLockWithSecret_renewal_witness :
  WriteLockWithSecret ∅ 0 "k" "secret" 30 =
    ("secret", None, <["k" := LockEntry "secret" 30000]> ∅) /\
  WriteLockWithSecret (<["k" := LockEntry "secret" 30000]> ∅) 1000 "k" "secret" 10 =
    ("secret", None, <["k" := LockEntry "secret" 11000]> (<["k" := LockEntry "secret" 30000]> ∅)).
Proof.
  exact (WriteLockWithSecret_renewal ∅ 0 1000 "k" "secret" 30 10
           eq_refl eq_refl (or_introl eq_refl) ltac:(lia)).
Defined.

(** C3 fails as first stated: a non-empty but blank secret is refused by
    the validator on both calls. *)
Lemma WriteLockWithSecret_blank_secret :
  WriteLockWithSecret ∅ 0 "k" " " 30 = (EmptyString, Some ErrSecretRequired, ∅) /\
  WriteLockWithSecret ∅ 0 "k" nbsp 30 = (EmptyString, Some ErrSecretRequired, ∅).
Proof. split; vm_compute; reflexivity. Qed.

(** C4.  For a live lock on a key, [ReleaseLock] with a secret different
    from the stored one returns [released = false] with an error (the lock
    mismatch, or the validator's error for a blank key or secret) and
    leaves the store, hence the original holder's lock, unchanged. *)
Theorem ReleaseLock_wrong_secret_keeps_lock (st : gmap string lock_entry)
    (now : Z) (key s s' : string) :
  live_secret st now key = Some s ->
  s' <> s ->
  exists e, ReleaseLock st now key s' = (false, Some e, st) /\
            (e = ErrLockMismatch \/ validateLockValues key s' = Some e) /\
            live_secret st now key = Some s.
Proof.
  intros Hl Hne. unfold ReleaseLock.
  destruct (validateLockValues key s') as [e|] eqn:Hv.
  - exists e. auto.
  - exists ErrLockMismatch. unfold ConditionalDelete. rewrite Hl.
    destruct (String.eqb_spec s s') as [->|]; [congruence|]. auto.
Qed.

Lemma ReleaseLock_wrong_secret_keeps_lock_witness :
  live_secret sample_store 0 "k" = Some sample_secret /\
  "deadbeef" <> sample_secret /\
  exists e, ReleaseLock sample_store 0 "k" "deadbeef" = (false, Some e, sample_store) /\
            (e = ErrLockMismatch \/ validateLockValues "k" "deadbeef" = Some e) /\
            live_secret sample_store 0 "k" = Some sample_secret.
Proof.
  assert (Hl : live_secret sample_store 0 "k" = Some sample_secret) by reflexivity.
  assert (Hne : "deadbeef" <> sample_secret) by (vm_compute; discriminate).
  split; [exact Hl|]. split; [exact Hne|].
  exact (ReleaseLock_wrong_secret_keeps_lock sample_store 0 "k" sample_secret "deadbeef" Hl Hne).
Defined.

(** C5.  After a successful [ReleaseLock], a second [ReleaseLock] with the
    same arguments, at any later instant, returns [released = false] with
    no error and leaves the store unchanged. *)
Theorem ReleaseLock_twice_noop (st st1 : gmap string lock_entry) (t t' : Z)
    (key secret : string) :
  ReleaseLock st t key secret = (true, None, st1) ->
  ReleaseLock st1 t' key secret = (false, None, st1).
Proof.
  unfold ReleaseLock. destruct (validateLockValues key secret); [discriminate|].
  unfold ConditionalDelete. destruct (live_secret st t key) as [cur|]; [|discriminate].
  destruct (String.eqb cur secret); [|discriminate].
  intros H. injection H as <-. rewrite live_secret_delete_eq. reflexivity.
Qed.

Lemma ReleaseLock_twice_noop_witness :
  ReleaseLock sample_store 0 "k" sample_secret = (true, None, delete "k" sample_store) /\
  ReleaseLock (delete "k" sample_store) 500 "k" sample_secret =
    (false, None, delete "k" sample_store).
Proof.
  assert (H : ReleaseLock sample_store 0 "k" sample_secret =
              (true, None, delete "k" sample_store)) by (vm_compute; reflexivity).
  split; [exact H|].
  exact (ReleaseLock_twice_noop sample_store (delete "k" sample_store) 0 500 "k" sample_secret H).
Defined.

(** ** Claims about waiting *)

(** C6 (as amended).  [WaitWriteLock] with a wait time [ttw <= 0] returns
    at once, at the instant of the call, with the empty secret, without
    any acquisition attempt and without touching the store: with "wait
    time required" when the lock key is not blank, and with "key
    required" (checked first) when it is. *)
Theorem WaitWriteLock_requires_wait_time (world : Z -> gmap string lock_entry)
    (rnd : Z -> reader) (cancel_at : option Z) (poll_ms : Z) (key : string)
    (ttl t0 ttw : Z) :
  ttw <= 0 ->
  WaitWriteLock world rnd cancel_at poll_ms key ttl t0 ttw =
    WaitResult EmptyString
      (Some (if is_blank key then ErrKeyRequired else ErrTTWCannotBeEmpty))
      (world t0) [] t0.
Proof.
  intros Httw. unfold WaitWriteLock, validateLockKey.
  destruct (is_blank key); [reflexivity|].
  destruct (Z.leb_spec ttw 0); [reflexivity|lia].
Qed.

Lemma WaitWriteLock_requires_wait_time_witness :
  0 <= 0 /\
  WaitWriteLock (fun _ => sample_store) (fun _ => const_reader Byte.x02) None 500
    "k" 30 0 0 =
    WaitResult EmptyString (Some ErrTTWCannotBeEmpty) sample_store [] 0.
Proof.
  split; [lia|].
  exact (WaitWriteLock_requires_wait_time (fun _ => sample_store)
           (fun _ => const_reader Byte.x02) None 500 "k" 30 0 0 ltac:(lia)).
Defined.

(** C6 fails as first stated: with an empty lock key and a zero wait time
    the call reports "key required", not "wait time required". *)
Lemma WaitWriteLock_empty_key_zero_wait :
  wr_error (WaitWriteLock (fun _ => ∅) (fun _ => const_reader Byte.x01) None 500
              "" 30 0 0) = Some ErrKeyRequired.
Proof. reflexivity. Qed.

(** The polling loop started at [t], before the context is cancelled at
    [tc] and before the deadline, with enough rounds to reach the
    deadline: it either acquires the lock before [tc], or returns the
    cancellation error at the first round at or after [tc]; it makes no
    attempt at or after [tc]. *)
Lemma wait_loop_cancellation (world : Z -> gmap string lock_entry)
    (rnd : Z -> reader) (tc poll_ms : Z) (key : string) (ttl t0 endTime : Z) :
  0 < poll_ms -> tc < endTime ->
  forall (fuel : nat) (t : Z) (acc : list Z),
  endTime <= t + Z.of_nat fuel * poll_ms ->
  Forall (fun a => a < tc) acc ->
  t = t0 \/ t - poll_ms < tc ->
  let r := wait_loop world rnd (Some tc) poll_ms key ttl endTime fuel t acc in
  Forall (fun a => a < tc) (wr_attempts r) /\
  ((wr_error r = None /\ wr_time r < tc) \/
   (wr_error r = Some ErrCancelled /\ wr_secret r = EmptyString /\
    tc <= wr_time r /\ (wr_time r = t0 \/ wr_time r < tc + poll_ms))).
Proof.
  intros Hp Hend fuel. induction fuel as [|fuel IH]; intros t acc Hfuel Hacc Hprev;
    cbn [wait_loop]; unfold ctx_done.
  all: destruct (Z.leb_spec tc t) as [Hdone|Hnot].
  1,3: cbn [wr_attempts wr_error wr_secret wr_time]; split;
       [apply Forall_rev; exact Hacc | right; repeat split; auto; lia].
  all: assert (Hacc' : Forall (fun a => a < tc) (t :: acc)) by (constructor; auto).
  all: destruct (WriteLock (world t) t (rnd t) key ttl) as [[s [e|]] st'].
  all: try (cbn [wr_attempts wr_error wr_time]; split;
            [apply Forall_rev; exact Hacc' | left; split; [reflexivity | lia]]).
  - destruct (Z.leb_spec endTime t); [lia|]. lia.
  - destruct (Z.leb_spec endTime t); [lia|].
    apply IH; [|exact Hacc'|right; lia]. nia.
Qed.

(** C7.  For a [WaitWriteLock] call at [t0] with a valid key and a
    positive wait time, whose context is cancelled (or reaches its
    deadline) at [tc] before the wait budget elapses: the loop attempts no
    acquisition at or after [tc], and the call either acquired the lock
    before [tc] or returns the cancellation error with the empty secret
    within one polling interval of [tc] (at once if [tc] precedes the
    call). *)
Theorem WaitWriteLock_respects_cancellation (world : Z -> gmap string lock_entry)
    (rnd : Z -> reader) (tc poll_ms : Z) (key : string) (ttl t0 ttw : Z) :
  0 < poll_ms ->
  is_blank key = false ->
  0 < ttw ->
  tc < t0 + ttw * 1000 ->
  let r := WaitWriteLock world rnd (Some tc) poll_ms key ttl t0 ttw in
  Forall (fun a => a < tc) (wr_attempts r) /\
  ((wr_error r = None /\ wr_time r < tc) \/
   (wr_error r = Some ErrCancelled /\ wr_secret r = EmptyString /\
    tc <= wr_time r /\ (wr_time r = t0 \/ wr_time r < tc + poll_ms))).
Proof.
  intros Hp Hk Httw Htc. unfold WaitWriteLock, validateLockKey. rewrite Hk.
  destruct (Z.leb_spec ttw 0); [lia|].
  apply (wait_loop_cancellation world rnd tc poll_ms key ttl t0); auto.
  rewrite Z2Nat.id by lia. nia.
Qed.

Lemma WaitWriteLock_respects_cancellation_witness :
  0 < 500 /\ is_blank "k" = false /\ 0 < 5 /\ 1200 < 0 + 5 * 1000 /\
  Forall (fun a => a < 1200)
    (wr_attempts (WaitWriteLock (fun _ => sample_store) (fun _ => const_reader Byte.x02)
                    (Some 1200) 500 "k" 10 0 5)).
Proof.
  split; [lia|]. split; [reflexivity|]. split; [lia|]. split; [lia|].
  exact (proj1 (WaitWriteLock_respects_cancellation (fun _ => sample_store)
                  (fun _ => const_reader Byte.x02) 1200 500 "k" 10 0 5
                  ltac:(lia) eq_refl ltac:(lia) ltac:(lia))).
Defined.

(** ** Claims about the secret generator *)

(** C8 (as amended).  [RandomHex rd 0] is the empty string.  For every
    byte count [n], [RandomHex] either succeeds with a string of length
    exactly [2n] over [0-9a-f], or, only when the random source cannot
    deliver [n > 0] bytes, fails with the generation error and the empty
    string. *)
Theorem RandomHex_lower_hex_of_length (rd : reader) (n : nat) :
  RandomHex rd 0 = (EmptyString, None) /\
  match RandomHex rd n with
  | (s, None) => String.length s = (2 * n)%nat /\ all_lower_hex s = true
  | (s, Some e) =>
      e = ErrRandomGeneration /\ s = EmptyString /\ n <> 0%nat /\ read_full rd n = None
  end.
Proof.
  split; [reflexivity|]. unfold RandomHex.
  destruct (read_full rd n) as [bs|] eqn:Hr.
  - apply read_full_length in Hr. subst n. split.
    + apply EncodeToString_length.
    + apply EncodeToString_lower_hex.
  - repeat split; auto. intros ->. discriminate.
Qed.

(** C8 fails as first stated: RandomHex(16) does not succeed when the
    entropy source is unavailable. *)
Lemma RandomHex_no_entropy :
  RandomHex dead_reader 16 = (EmptyString, Some ErrRandomGeneration).
Proof. reflexivity. Qed.

(** ** Client options and engines *)

Lemma prefix_app (p u : string) : String.prefix p (p ++ u) = true.
Proof.
  induction p as [|a p IH]; [destruct u; reflexivity|].
  change (String a p ++ u)%string with (String a (p ++ u)). cbn [String.prefix].
  destruct (ascii_dec a a) as [_|n]; [exact IH | congruence].
Qed.

Lemma contains_prefixed (p u : string) : contains (p ++ u) p = true.
Proof.
  assert (H : forall s, String.prefix p s = true -> contains s p = true)
    by (intros [|a s] Hs;
        [change (String.prefix p "" || false = true)
        |change (String.prefix p (String a s) || contains s p = true)];
        rewrite Hs; reflexivity).
  apply H, prefix_app.
Qed.

Section WithRedisFacts.

Variable RedisPrefix : string.
Variable DefaultRedisMaxIdleTimeout : Z.
Variable duration_is_empty : Z -> bool.

Local Abbreviation WithRedis' := (WithRedis RedisPrefix DefaultRedisMaxIdleTimeout duration_is_empty).

(** [WithRedis] with a config [r] at [l]: the options point at [l] with
    the Redis engine and no Redis connection, keeping their other
    settings; the caller's config itself is updated in place, its URL
    carrying the prefix (added in front only when missing) and an empty
    idle timeout replaced by the default, its other fields unchanged; no
    other object is touched. *)
Theorem WithRedis_effect (h : gmap positive RedisConfig) (c : clientOptions)
    (l : positive) (r : RedisConfig) :
  h !! l = Some r ->
  let '(h', c') := WithRedis' (Some l) h c in
  redisConfig c' = Some l /\ redis c' = None /\ engine c' = Engine.Redis /\
  debug c' = debug c /\ newRelicEnabled c' = newRelicEnabled c /\
  freeCache c' = freeCache c /\ logger c' = logger c /\
  (forall l', l' <> l -> h' !! l' = h !! l') /\
  exists r', h' !! l = Some r' /\
    contains (URL r') RedisPrefix = true /\
    URL r' = (if contains (URL r) RedisPrefix then URL r
              else String.append RedisPrefix (URL r)) /\
    MaxIdleTimeout r' = (if duration_is_empty (MaxIdleTimeout r)
                         then DefaultRedisMaxIdleTimeout else MaxIdleTimeout r) /\
    DependencyMode r' = DependencyMode r /\
    MaxActiveConnections r' = MaxActiveConnections r /\
    MaxConnectionLifetime r' = MaxConnectionLifetime r /\
    MaxIdleConnections r' = MaxIdleConnections r /\
    UseTLS r' = UseTLS r.
Proof.
  intros Hl. unfold WithRedis. rewrite Hl.
  assert (Hr1 : exists r1, (if contains (URL r) RedisPrefix then r
                             else set_URL (RedisPrefix ++ URL r) r) = r1 /\
                contains (URL r1) RedisPrefix = true /\
                URL r1 = (if contains (URL r) RedisPrefix then URL r
                          else String.append RedisPrefix (URL r)) /\
                MaxIdleTimeout r1 = MaxIdleTimeout r /\
                DependencyMode r1 = DependencyMode r /\
                MaxActiveConnections r1 = MaxActiveConnections r /\
                MaxConnectionLifetime r1 = MaxConnectionLifetime r /\
                MaxIdleConnections r1 = MaxIdleConnections r /\ UseTLS r1 = UseTLS r).
  { destruct (contains (URL r) RedisPrefix) eqn:Hc; eexists; split; [reflexivity| |reflexivity|].
    - repeat split; auto.
    - split; [apply contains_prefixed|]. repeat split; reflexivity. }
  destruct Hr1 as (r1 & -> & Hc1 & Hu1 & Ht1 & Hd1 & Ha1 & Hlt1 & Hi1 & Hs1).
  rewrite <- Ht1.
  destruct (duration_is_empty (MaxIdleTimeout r1)) eqn:He.
  - repeat split; auto.
    + intros l' Hne. rewrite !lookup_insert_ne by congruence. reflexivity.
    + eexists. split; [apply lookup_insert_eq|]. destruct r1; cbn in *; repeat split; auto.
  - repeat split; auto.
    + intros l' Hne. rewrite lookup_insert_ne by congruence. reflexivity.
    + eexists. split; [apply lookup_insert_eq|]. repeat split; auto.
Qed.

(** Applying [WithRedis] twice with the same config is the same as
    applying it once: the prefix is not added twice and the idle timeout
    is not reset again. *)
Theorem WithRedis_idempotent (h : gmap positive RedisConfig) (c : clientOptions)
    (l : positive) (r : RedisConfig) :
  h !! l = Some r ->
  let '(h1, c1) := WithRedis' (Some l) h c in
  WithRedis' (Some l) h1 c1 = (h1, c1).
Proof.
  intros Hl. unfold WithRedis. rewrite Hl.
  set (r1 := if contains (URL r) RedisPrefix then r else set_URL (RedisPrefix ++ URL r) r).
  assert (Hc1 : contains (URL r1) RedisPrefix = true).
  { subst r1. destruct (contains (URL r) RedisPrefix) eqn:Hc; [exact Hc|apply contains_prefixed]. }
  destruct (duration_is_empty (MaxIdleTimeout r1)) eqn:He.
  - cbn. rewrite lookup_insert_eq. cbn. rewrite Hc1. cbn.
    destruct (duration_is_empty DefaultRedisMaxIdleTimeout).
    + rewrite !insert_insert_eq. f_equal; try (destruct r1; reflexivity).
    + rewrite insert_insert_eq. f_equal; try (destruct r1; reflexivity).
  - cbn. rewrite lookup_insert_eq. rewrite Hc1, He.
    rewrite insert_insert_eq. reflexivity.
Qed.

(** Whichever of [WithRedis] and [WithRedisConnection] comes last decides
    how Redis is reached: a later connection drops the config, a later
    config drops the connection; the engine is Redis either way. *)
Theorem WithRedis_last_source_wins (h : gmap positive RedisConfig) (c : clientOptions)
    (l rc : positive) (r : RedisConfig) :
  h !! l = Some r ->
  (let '(h1, c1) := WithRedis' (Some l) h c in
   let '(h2, c2) := WithRedisConnection (Some rc) h1 c1 in
   redis c2 = Some rc /\ redisConfig c2 = None /\ engine c2 = Engine.Redis /\ h2 = h1) /\
  (let '(h1, c1) := WithRedisConnection (Some rc) h c in
   let '(h2, c2) := WithRedis' (Some l) h1 c1 in
   redis c2 = None /\ redisConfig c2 = Some l /\ engine c2 = Engine.Redis).
Proof.
  intros Hl. split.
  - unfold WithRedis. rewrite Hl.
    destruct (duration_is_empty _); cbn; repeat split.
  - cbn. unfold WithRedis. rewrite Hl.
    destruct (duration_is_empty _); cbn; repeat split.
Qed.

(** Switching to FreeCache after [WithRedis] (with or without an existing
    FreeCache connection) changes the engine only (and, for the
    connection, the FreeCache client): the options keep pointing at the
    Redis config, which keeps the changes [WithRedis] made to it, and keep
    the debug flag, the New Relic flag and the logger of the options
    [WithRedis] was given. *)
Theorem WithFreeCache_after_WithRedis (h : gmap positive RedisConfig) (c : clientOptions)
    (l fc : positive) (r : RedisConfig) :
  h !! l = Some r ->
  let '(h1, c1) := WithRedis' (Some l) h c in
  (let '(h2, c2) := WithFreeCache h1 c1 in
   engine c2 = Engine.FreeCache /\ Engine.IsEmpty (engine c2) = false /\
   redisConfig c2 = Some l /\ redis c2 = None /\ h2 = h1 /\
   freeCache c2 = freeCache c /\ debug c2 = debug c /\
   newRelicEnabled c2 = newRelicEnabled c /\ logger c2 = logger c) /\
  (let '(h2, c2) := WithFreeCacheConnection (Some fc) h1 c1 in
   engine c2 = Engine.FreeCache /\ freeCache c2 = Some fc /\
   redisConfig c2 = Some l /\ redis c2 = None /\ h2 = h1 /\
   debug c2 = debug c /\ newRelicEnabled c2 = newRelicEnabled c /\
   logger c2 = logger c).
Proof.
  intros Hl. unfold WithRedis. rewrite Hl.
  destruct (duration_is_empty _); cbn; repeat split.
Qed.

End WithRedisFacts.

Lemma WithRedis_idempotent_witness :
  <[1%positive := zeroRedisConfig]> (∅ : gmap positive RedisConfig) !! 1%positive =
    Some zeroRedisConfig /\
  (let '(h1, c1) := WithRedis "redis://" 30 (fun d => d =? 0) (Some 1%positive)
                      (<[1%positive := zeroRedisConfig]> ∅)
                      (MkClientOptions false Engine.Empty None None false None None) in
   WithRedis "redis://" 30 (fun d => d =? 0) (Some 1%positive) h1 c1 = (h1, c1)).
Proof.
  split; [reflexivity|].
  exact (WithRedis_idempotent "redis://" 30 (fun d => d =? 0)
           (<[1%positive := zeroRedisConfig]> ∅)
           (MkClientOptions false Engine.Empty None None false None None)
           1%positive zeroRedisConfig eq_refl).
Defined.

Lemma WithRedis_effect_witness :
  <[1%positive := zeroRedisConfig]> (∅ : gmap positive RedisConfig) !! 1%positive =
    Some zeroRedisConfig /\
  (let '(h', c') := WithRedis "redis://" 30 (fun d => d =? 0) (Some 1%positive)
                      (<[1%positive := zeroRedisConfig]> ∅)
                      (MkClientOptions false Engine.Empty None None false None None) in
   redisConfig c' = Some 1%positive /\ redis c' = None /\ engine c' = Engine.Redis /\
   debug c' = false /\ newRelicEnabled c' = false /\ freeCache c' = None /\
   logger c' = None /\
   (forall l', l' <> 1%positive -> h' !! l' = (<[1%positive := zeroRedisConfig]> (∅ : gmap positive RedisConfig)) !! l') /\
   exists r', h' !! 1%positive = Some r' /\
     contains (URL r') "redis://" = true /\
     URL r' = (if contains (URL zeroRedisConfig) "redis://" then URL zeroRedisConfig
               else String.append "redis://" (URL zeroRedisConfig)) /\
     MaxIdleTimeout r' = (if (MaxIdleTimeout zeroRedisConfig =? 0)
                          then 30 else MaxIdleTimeout zeroRedisConfig) /\
     DependencyMode r' = DependencyMode zeroRedisConfig /\
     MaxActiveConnections r' = MaxActiveConnections zeroRedisConfig /\
     MaxConnectionLifetime r' = MaxConnectionLifetime zeroRedisConfig /\
     MaxIdleConnections r' = MaxIdleConnections zeroRedisConfig /\
     UseTLS r' = UseTLS zeroRedisConfig).
Proof.
  split; [reflexivity|].
  exact (WithRedis_effect "redis://" 30 (fun d => d =? 0)
           (<[1%positive := zeroRedisConfig]> ∅)
           (MkClientOptions false Engine.Empty None None false None None)
           1%positive zeroRedisConfig eq_refl).
Defined.

Lemma WithRedis_last_source_wins_witness :
  <[1%positive := zeroRedisConfig]> (∅ : gmap positive RedisConfig) !! 1%positive =
    Some zeroRedisConfig /\
  (let '(h1, c1) := WithRedisConnection (Some 7%positive)
                      (<[1%positive := zeroRedisConfig]> ∅)
                      (MkClientOptions false Engine.Empty None None false None None) in
   let '(h2, c2) := WithRedis "redis://" 30 (fun d => d =? 0) (Some 1%positive) h1 c1 in
   redis c2 = None /\ redisConfig c2 = Some 1%positive /\ engine c2 = Engine.Redis).
Proof.
  split; [reflexivity|].
  exact (proj2 (WithRedis_last_source_wins "redis://" 30 (fun d => d =? 0)
                  (<[1%positive := zeroRedisConfig]> ∅)
                  (MkClientOptions false Engine.Empty None None false None None)
                  1%positive 7%positive zeroRedisConfig eq_refl)).
Defined.

Lemma WithFreeCache_after_WithRedis_witness :
  <[1%positive := zeroRedisConfig]> (∅ : gmap positive RedisConfig) !! 1%positive =
    Some zeroRedisConfig /\
  (let '(h1, c1) := WithRedis "redis://" 30 (fun d => d =? 0) (Some 1%positive)
                      (<[1%positive := zeroRedisConfig]> ∅)
                      (MkClientOptions false Engine.Empty None None false None None) in
   let '(h2, c2) := WithFreeCache h1 c1 in
   engine c2 = Engine.FreeCache /\ Engine.IsEmpty (engine c2) = false /\
   redisConfig c2 = Some 1%positive /\ redis c2 = None /\ h2 = h1 /\
   freeCache c2 = None /\ debug c2 = false /\ newRelicEnabled c2 = false /\
   logger c2 = None).
Proof.
  split; [reflexivity|].
  exact (proj1 (WithFreeCache_after_WithRedis "redis://" 30 (fun d => d =? 0)
                  (<[1%positive := zeroRedisConfig]> ∅)
                  (MkClientOptions false Engine.Empty None None false None None)
                  1%positive 3%positive zeroRedisConfig eq_refl)).
Defined.

(** [getTxnCtx] never changes which transaction the context carries, nor
    any value under another key than the main transaction key; when the
    context carries no transaction (in particular when a key holds a value
    of another type) or New Relic is disabled, it returns the context
    itself; otherwise the main key now holds that transaction. *)
Theorem getTxnCtx_preserves_transaction (c : clientOptions) (ctx : context) :
  FromContext (getTxnCtx c ctx) = FromContext ctx /\
  (forall k, k <> TransactionContextKey -> Value (getTxnCtx c ctx) k = Value ctx k) /\
  (FromContext ctx = None -> getTxnCtx c ctx = ctx) /\
  (newRelicEnabled c = false -> getTxnCtx c ctx = ctx) /\
  (forall t, newRelicEnabled c = true -> FromContext ctx = Some t ->
     Value (getTxnCtx c ctx) TransactionContextKey = Some (TxnVal (Some t))).
Proof.
  unfold getTxnCtx. destruct (newRelicEnabled c).
  - destruct (FromContext ctx) as [t|] eqn:Hf.
    + destruct ctx as [kvs|]; [|discriminate]. cbn in *.
      split; [reflexivity|]. split.
      * intros k Hk. destruct k; [congruence|reflexivity|reflexivity].
      * split; [intros; congruence|]. split; [intros; congruence|].
        intros t' _ Ht. injection Ht as <-. reflexivity.
    + repeat split; intros; congruence.
  - repeat split; intros; congruence.
Qed.

(** With New Relic enabled, a context whose Gin key holds a value of
    another type, or a nil transaction pointer, carries no transaction and
    is returned as it is; a transaction under the Gin key is copied to the
    main key. *)
Lemma getTxnCtx_samples :
  let c := MkClientOptions false Engine.Empty None None true None None in
  getTxnCtx c (Some [(GinTransactionContextKey, OtherVal 4%positive)]) =
    Some [(GinTransactionContextKey, OtherVal 4%positive)] /\
  getTxnCtx c (Some [(TransactionContextKey, TxnVal None)]) =
    Some [(TransactionContextKey, TxnVal None)] /\
  getTxnCtx c (Some [(TransactionContextKey, OtherVal 2%positive);
                     (GinTransactionContextKey, TxnVal (Some 5%positive))]) =
    Some [(TransactionContextKey, TxnVal (Some 5%positive));
          (TransactionContextKey, OtherVal 2%positive);
          (GinTransactionContextKey, TxnVal (Some 5%positive))].
Proof. repeat split. Qed.
